(** * superdesk-archive: the spike service and the fetch-to-archive activity

    A shallow embedding of [client/app/scripts/superdesk-archive/module.js].
    The JavaScript objects the handlers mutate live in a store of objects
    addressed by reference, so that aliasing between an item, its
    [actioning] object and the activity's [data] object is the source's.
    Promise callbacks are kept as continuations that are run when the
    environment settles the request. *)

From stdpp Require Import gmap strings list fin_maps.
From Stdlib Require Import ZArith.

Open Scope string_scope.
Open Scope list_scope.

(** ** JavaScript values and objects *)

Module JS.

Abbreviation loc := positive.

(** Primitive values and object references. Numbers are restricted to
    integers: no value of this development is [NaN]. *)
Inductive value : Type :=
  | VUndefined
  | VNull
  | VBool (b : bool)
  | VNum (n : Z)
  | VStr (s : string)
  | VRef (l : loc).

#[global] Instance value_eq_dec : EqDecision value.
Proof. solve_decision. Defined.

(** [a === b]: on primitives other than [NaN] it compares the values, on
    objects the references. *)
Definition strict_eq (a b : value) : bool := bool_decide (a = b).

(** A plain object: its own enumerable properties. *)
Abbreviation obj := (gmap string value).

(** An outgoing request of the [api] service. The item of an update is
    passed by reference; patches and creation payloads are object literals
    built for the call. *)
Inductive request : Type :=
  | ReqUpdate (resource : string) (item : loc) (patch : obj)
  | ReqCreate (resource : string) (payload : obj).

#[global] Instance request_eq_dec : EqDecision request.
Proof. solve_decision. Defined.

(** Everything the module can observe or change: the object store, the
    query parameters held by [$location], the desk that [desks] reports as
    current, and the requests issued so far, oldest first. *)
Record world : Type := World {
  heap : gmap loc obj;
  search : gmap string value;
  current_desk : value;
  requests : list request
}.

(** A reference always denotes an object; one that was never written has
    no own property. *)
Definition object_at (h : gmap loc obj) (l : loc) : obj := default ∅ (h !! l).

(** Reading a property that an object does not have gives [undefined]. *)
Definition own_prop (o : obj) (k : string) : value := default VUndefined (o !! k).

(** [l.k] read in world [w]. *)
Definition field (w : world) (l : loc) (k : string) : value :=
  own_prop (object_at (heap w) l) k.

(** The raw property slot, telling an absent property from one that holds
    [undefined]. *)
Definition slot (w : world) (l : loc) (k : string) : option value :=
  object_at (heap w) l !! k.

(** [l.actioning.<name>] read in world [w]; [None] when [l.actioning] is
    not an object, so that there is no flag to read. *)
Definition flag (w : world) (l : loc) (name : string) : option value :=
  match field w l "actioning" with
  | VRef a => Some (field w a name)
  | _ => None
  end.

(** ** Computations: state and exceptions *)

Inductive exn : Type := TypeError.

Inductive completion (A : Type) : Type :=
  | Normal (a : A)
  | Throw (e : exn).
Arguments Normal {A} a.
Arguments Throw {A} e.

Definition M (A : Type) : Type := world → completion A * world.

Definition ret {A} (a : A) : M A := λ w, (Normal a, w).

Definition bind {A B} (m : M A) (k : A → M B) : M B :=
  λ w, match m w with
       | (Normal a, w') => k a w'
       | (Throw e, w') => (Throw e, w')
       end.

Definition throw {A} (e : exn) : M A := λ w, (Throw e, w).

Definition when (b : bool) (m : M unit) : M unit := if b then m else ret ().

Notation "'let!' x ':=' e 'in' k" := (bind e (λ x, k))
  (at level 10, x name, e at level 100, k at level 200, only parsing).
Notation "e '>>' k" := (bind e (λ _, k))
  (at level 100, k at level 200, right associativity, only parsing).

(** [v.k] as an expression: a [TypeError] on [undefined] and [null]; the
    keys read by this module are not properties of the primitive wrappers,
    so a primitive gives [undefined]. *)
Definition get_prop (v : value) (k : string) : M value :=
  match v with
  | VRef l => λ w, (Normal (field w l k), w)
  | VUndefined | VNull => throw TypeError
  | VBool _ | VNum _ | VStr _ => ret VUndefined
  end.

Definition write (l : loc) (k : string) (x : value) (w : world) : world :=
  World (<[l := <[k := x]> (object_at (heap w) l)]> (heap w))
        (search w) (current_desk w) (requests w).

(** [v.k = x] under ['use strict']: only an object can receive the
    property; [undefined], [null] and the primitives raise [TypeError]. *)
Definition set_prop (v : value) (k : string) (x : value) : M unit :=
  match v with
  | VRef l => λ w, (Normal (), write l k x w)
  | _ => throw TypeError
  end.

(** ** The collaborators *)

(** [$location.search()] returns the current query parameters. *)
Definition location_search : M obj := λ w, (Normal (search w), w).

(** [$location.search(name, value)]: a [null] or [undefined] value removes
    the parameter, any other value sets it. *)
Definition location_search_set (name : string) (v : value) : M unit :=
  λ w, (Normal (),
        World (heap w)
              (match v with
               | VNull | VUndefined => delete name (search w)
               | _ => <[name := v]> (search w)
               end)
              (current_desk w) (requests w)).

(** [desks.getCurrentDeskId()] *)
Definition desks_getCurrentDeskId : M value := λ w, (Normal (current_desk w), w).

Definition issue (r : request) : M nat :=
  λ w, (Normal (length (requests w)),
        World (heap w) (search w) (current_desk w) (requests w ++ [r])).

(** [api.update(resource, item, patch)] sends the request and returns its
    promise, here the position of the request in the log. *)
Definition api_update (resource : string) (item : loc) (patch : obj) : M nat :=
  issue (ReqUpdate resource item patch).

(** [api.archiveIngest.create(payload)] *)
Definition api_archiveIngest_create (payload : obj) : M nat :=
  issue (ReqCreate "archiveIngest" payload).

(** How the environment settles a request. *)
Inductive outcome : Type :=
  | Fulfilled (v : value)
  | Rejected (response : value).

(** [promise.then(onFulfilled, onRejected)]: the two callbacks waiting for
    the request. *)
Record reaction : Type := Then {
  awaits : nat;
  on_fulfilled : value → M value;
  on_rejected : value → M value
}.

(** Runs the callback selected by the outcome. A callback that throws
    rejects the derived promise; one that returns fulfils it. *)
Definition settle (r : reaction) (o : outcome) : M value :=
  match o with
  | Fulfilled v => on_fulfilled r v
  | Rejected response => on_rejected r response
  end.

End JS.

Import JS.

(** ** SpikeService *)

Definition SPIKE_RESOURCE : string := "archive_spike".
Definition UNSPIKE_RESOURCE : string := "archive_unspike".

(** [item.actioning.<name> = false] *)
Definition clear_actioning (item : value) (name : string) : M unit :=
  let! actioning := get_prop item "actioning" in
  set_prop actioning name (VBool false).

(** The two callbacks of [spike], in the order they are passed to [then].
    [item] is an object, as the source's [@param {Object} item] says. *)
Definition spike_fulfilled (item : loc) (_ : value) : M value :=
  let! s := location_search in
  let! id := get_prop (VRef item) "_id" in
  when (strict_eq (own_prop s "_id") id) (location_search_set "_id" VNull) >>
  clear_actioning (VRef item) "spike" >>
  ret VUndefined.

Definition spike_rejected (item : loc) (response : value) : M value :=
  set_prop (VRef item) "error" response >>
  clear_actioning (VRef item) "spike" >>
  ret VUndefined.

Definition spike (item : loc) : M reaction :=
  let! p := api_update SPIKE_RESOURCE item {[ "state" := VStr "spiked" ]} in
  ret (Then p (spike_fulfilled item) (spike_rejected item)).

Definition unspike_fulfilled (item : loc) (_ : value) : M value :=
  clear_actioning (VRef item) "unspike" >>
  ret VUndefined.

Definition unspike_rejected (item : loc) (response : value) : M value :=
  set_prop (VRef item) "error" response >>
  clear_actioning (VRef item) "unspike" >>
  ret VUndefined.

Definition unspike (item : loc) : M reaction :=
  let! p := api_update UNSPIKE_RESOURCE item ∅ in
  ret (Then p (unspike_fulfilled item) (unspike_rejected item)).

(** ** The [archiveContent] activity controller *)

(** [data] is the activity's locals object; [data.item] is read again at
    every use, as the source does. *)
Definition archiveContent_fulfilled (data : loc) (archiveItem : value) : M value :=
  let! item := get_prop (VRef data) "item" in
  let! task_id := get_prop archiveItem "task_id" in
  set_prop item "task_id" task_id >>
  let! item := get_prop (VRef data) "item" in
  let! created := get_prop archiveItem "created" in
  set_prop item "created" created >>
  let! item := get_prop (VRef data) "item" in
  clear_actioning item "archiveContent" >>
  ret VUndefined.

Definition archiveContent_rejected (data : loc) (response : value) : M value :=
  let! item := get_prop (VRef data) "item" in
  set_prop item "error" response >>
  let! item := get_prop (VRef data) "item" in
  clear_actioning item "archiveContent" >>
  ret VUndefined.

Definition archiveContent (data : loc) : M reaction :=
  let! item := get_prop (VRef data) "item" in
  let! guid := get_prop item "guid" in
  let! desk := desks_getCurrentDeskId in
  let! p := api_archiveIngest_create (<["guid" := guid]> {[ "desk" := desk ]}) in
  ret (Then p (archiveContent_fulfilled data) (archiveContent_rejected data)).

(** The world after one more request has been sent. *)
Definition sent (w : world) (r : request) : world :=
  World (heap w) (search w) (current_desk w) (requests w ++ [r]).

(** The selection after the success callback of [spike]. *)
Definition deselect (w : world) (item : loc) : world :=
  if strict_eq (own_prop (search w) "_id") (field w item "_id")
  then World (heap w) (delete "_id" (search w)) (current_desk w) (requests w)
  else w.

(** Worlds used to exercise the handlers: item [1] is selected in the
    view and its [actioning] object is [2]. *)
Definition item1 : obj :=
  <["_id" := VStr "a1"]> (<["guid" := VStr "g1"]> {[ "actioning" := VRef 2%positive ]}).

Definition sample (flags : obj) : world :=
  World (<[1%positive := item1]> {[ 2%positive := flags ]})
        {[ "_id" := VStr "a1" ]} (VStr "desk1") [].

(** The locals of an activity started on item [1], and an ingested copy
    returned by the server. *)
Definition fetching : world :=
  World (<[3%positive := {[ "item" := VRef 1%positive ]}]>
          (<[4%positive := <["task_id" := VStr "t9"]> {[ "created" := VStr "2014-07-01" ]}]>
            (heap (sample {[ "archiveContent" := VBool true ]}))))
        ∅ (VStr "desk1") [].

(** ** The users resource

    The feature file [User Resource] exercises the server side of the
    "users" resource, which is not among the source files. *)

Module Users.

#[local] Set Warnings "-register-all".

Inductive json : Type :=
  | JStr (s : string)
  | JObj (fields : list (string * json))
  | JArr (items : list json).

Fixpoint assoc (k : string) (fs : list (string * json)) : option json :=
  match fs with
  | [] => None
  | (k', j) :: rest => if bool_decide (k' = k) then Some j else assoc k rest
  end.

Definition as_string (j : option json) : option string :=
  match j with
  | Some (JStr s) => Some s
  | _ => None
  end.

(** The subset match of the feature steps: every member of the expected
    object is matched by the member of the same name of the actual one. *)
Fixpoint contains (expected actual : json) : bool :=
  match expected, actual with
  | JStr a, JStr b => bool_decide (a = b)
  | JObj fs, JObj gs =>
      forallb (λ p, match assoc p.1 gs with
                    | Some j => contains p.2 j
                    | None => false
                    end) fs
  | JArr xs, JArr ys =>
      (fix all2 (xs ys : list json) : bool :=
         match xs, ys with
         | [], [] => true
         | x :: xs', y :: ys' => contains x y && all2 xs' ys'
         | _, _ => false
         end) xs ys
  | _, _ => false
  end.

(** Whether a member named [k] occurs anywhere in a document. *)
Fixpoint mentions (k : string) (j : json) : bool :=
  match j with
  | JStr _ => false
  | JObj fs => existsb (λ p, bool_decide (p.1 = k) || mentions k p.2) fs
  | JArr js => existsb (mentions k) js
  end.

(** Modelled from the spec: the [User] of the data model, whose server
    side is missing from the source files. [username] is the key of the
    resource and never changes, [password] is required at creation and
    write-only, [first_name] is optional. *)
Record user : Type := User {
  username : string;
  password : string;
  first_name : option string
}.

(** Modelled from the spec: the representation of a stored user, which the
    missing server produces: its fields but the password, and
    [_links.self.href] derived from [username]. *)
Definition represent (u : user) : json :=
  JObj ([("username", JStr (username u))]
        ++ match first_name u with
           | Some f => [("first_name", JStr f)]
           | None => []
           end
        ++ [("_links",
             JObj [("self", JObj [("href", JStr (String.append "/users/" (username u)))])])]).

Inductive status : Type := Created | Success | NotFound | Refused.

Record response : Type := Response {
  status_of : status;
  body : option json
}.

(** Modelled from the spec: [POST /users] of the missing server; the
    username becomes the key of the resource. What the spec leaves open (a
    body without [username] or [password], a [username] that is taken) is
    answered by a refusal without body. *)
Definition post (doc : json) (db : gmap string user) : response * gmap string user :=
  match doc with
  | JObj fs =>
      match as_string (assoc "username" fs), as_string (assoc "password" fs) with
      | Some name, Some pw =>
          match db !! name with
          | None =>
              let u := User name pw (as_string (assoc "first_name" fs)) in
              (Response Created (Some (represent u)), <[name := u]> db)
          | Some _ => (Response Refused None, db)
          end
      | _, _ => (Response Refused None, db)
      end
  | _ => (Response Refused None, db)
  end.

(** Modelled from the spec: [GET /users/{username}] of the missing server. *)
Definition fetch (name : string) (db : gmap string user) : response :=
  match db !! name with
  | Some u => Response Success (Some (represent u))
  | None => Response NotFound None
  end.

(** Modelled from the spec: [GET /users] of the missing server, a sequence
    of user summaries. *)
Definition list_all (db : gmap string user) : response :=
  Response Success
    (Some (JObj [("_items", JArr (map (λ p, represent p.2) (map_to_list db)))])).

(** Modelled from the spec: [PATCH /users/{username}] of the missing
    server; the fields named in the body replace the stored ones,
    [username] is immutable, and no body is promised. *)
Definition patch (name : string) (doc : json) (db : gmap string user)
    : response * gmap string user :=
  match db !! name, doc with
  | Some u, JObj fs =>
      let u' := User (username u)
                     (default (password u) (as_string (assoc "password" fs)))
                     (match as_string (assoc "first_name" fs) with
                      | Some f => Some f
                      | None => first_name u
                      end) in
      (Response Success None, <[name := u']> db)
  | Some _, _ => (Response Refused None, db)
  | None, _ => (Response NotFound None, db)
  end.

(** Modelled from the spec: [DELETE /users/{username}] of the missing
    server. *)
Definition remove (name : string) (db : gmap string user)
    : response * gmap string user :=
  match db !! name with
  | Some _ => (Response Success None, delete name db)
  | None => (Response NotFound None, db)
  end.

Inductive call : Type :=
  | Post (doc : json)
  | Fetch (name : string)
  | ListAll
  | Patch (name : string) (doc : json)
  | Delete (name : string).

Definition serve (c : call) (db : gmap string user) : response * gmap string user :=
  match c with
  | Post doc => post doc db
  | Fetch name => (fetch name db, db)
  | ListAll => (list_all db, db)
  | Patch name doc => patch name doc db
  | Delete name => remove name db
  end.

(** The responses to a sequence of calls, in order. *)
Fixpoint session (cs : list call) (db : gmap string user) : list response :=
  match cs with
  | [] => []
  | c :: rest => let '(r, db') := serve c db in r :: session rest db'
  end.

(** The steps of the scenario "Create a user" of the feature file. *)
Definition we_get_new_resource (expected : json) (r : response) : bool :=
  match status_of r, body r with
  | Created, Some j => contains expected j
  | _, _ => false
  end.

Definition we_get_no (k : string) (r : response) : bool :=
  match body r with
  | Some j => negb (mentions k j)
  | None => true
  end.

Definition create_a_user : bool :=
  let '(r, _) := post (JObj [("username", JStr "foo"); ("password", JStr "bar")]) ∅ in
  we_get_new_resource
    (JObj [("username", JStr "foo");
           ("_links", JObj [("self", JObj [("href", JStr "/users/foo")])])]) r
  && we_get_no "password" r.

End Users.

(** ** Observing worlds *)

(** [undefined] and [null], the values without properties. *)
Definition nullish (v : value) : bool :=
  match v with
  | VUndefined | VNull => true
  | _ => false
  end.

(** Booleans, numbers and strings. *)
Definition primitive (v : value) : bool :=
  match v with
  | VBool _ | VNum _ | VStr _ => true
  | _ => false
  end.

(** Worlds that no read can tell apart: the same properties on every
    object, the same query parameters, desk and request log. *)
Definition same_world (w1 w2 : world) : Prop :=
  (∀ l k, slot w1 l k = slot w2 l k)
  ∧ search w1 = search w2
  ∧ current_desk w1 = current_desk w2
  ∧ requests w1 = requests w2.

(** The store that [item.actioning.<name> = false] leaves behind, whether
    the assignment completes or throws. *)
Definition cleared (item : loc) (name : string) (w : world) : world :=
  match field w item "actioning" with
  | VRef a => write a name (VBool false) w
  | _ => w
  end.

(** Whether [item.actioning.<name> = false] completes. *)
Definition clears (w : world) (item : loc) : completion unit :=
  match field w item "actioning" with
  | VRef _ => Normal ()
  | _ => Throw TypeError
  end.

(** A callback that ends with the assignment of the flag returns
    [undefined] when the assignment completes. *)
Definition finish (c : completion unit) : completion value :=
  match c with
  | Normal _ => Normal VUndefined
  | Throw e => Throw e
  end.

Definition is_object (v : value) : bool :=
  match v with
  | VRef _ => true
  | _ => false
  end.

(** [v.k] for a [v] that is not [undefined] or [null]. *)
Definition read (w : world) (v : value) (k : string) : value :=
  match v with
  | VRef l => field w l k
  | _ => VUndefined
  end.

(** The query parameters after the comparison of [spike]'s success
    callback against the identifier [id]. *)
Definition desel (s : obj) (id : value) : obj :=
  if strict_eq (own_prop s "_id") id then delete "_id" s else s.

(** A world whose item [1] has no [actioning] property, seen through
    locals [3]; and one whose locals hold a string for an item. *)
Definition bare : world :=
  World (<[1%positive := {[ "_id" := VStr "a1" ]}]> {[ 3%positive := {[ "item" := VRef 1%positive ]} ]})
        {[ "_id" := VStr "a1" ]} (VStr "desk1") [].

Definition stray : world :=
  World {[ 3%positive := {[ "item" := VStr "a1" ]} ]} ∅ (VStr "desk1") [].

(** The two methods of the service. *)
Inductive method : Type := Spike | Unspike.

Definition service (m : method) : loc → M reaction :=
  match m with
  | Spike => spike
  | Unspike => unspike
  end.

(** A call whose request is settled at once, before anything else runs. *)
Definition settled_at_once (call : M reaction) (o : outcome) : M value :=
  let! r := call in
  settle r o.

(** * Proofs *)

(** ** Reading the store after a write *)

Section Store.

Implicit Types (w : world) (l a : loc) (k : string) (x : value).

Lemma slot_write w l k x l' k' :
  slot (write l k x w) l' k' =
  if decide (l = l' ∧ k = k') then Some x else slot w l' k'.
Proof.
  unfold slot, write, object_at; simpl.
  destruct (decide (l = l')) as [<-|Hl].
  - rewrite lookup_insert_eq; simpl.
    destruct (decide (k = k')) as [<-|Hk].
    + rewrite lookup_insert_eq. by rewrite decide_True.
    + rewrite lookup_insert_ne; [|done]. rewrite decide_False; [done | by intros [??]].
  - rewrite lookup_insert_ne; [|done]. rewrite decide_False; [done | by intros [??]].
Qed.

Lemma field_slot w l k : field w l k = default VUndefined (slot w l k).
Proof. reflexivity. Qed.

Lemma field_write_eq w l k x : field (write l k x w) l k = x.
Proof. rewrite field_slot, slot_write, decide_True; done. Qed.

Lemma field_write_key w l k x l' k' :
  k ≠ k' → field (write l k x w) l' k' = field w l' k'.
Proof.
  intros Hk. rewrite !field_slot, slot_write, decide_False; [done | by intros [??]].
Qed.

Lemma field_write_loc w l k x l' k' :
  l ≠ l' → field (write l k x w) l' k' = field w l' k'.
Proof.
  intros Hl. rewrite !field_slot, slot_write, decide_False; [done | by intros [??]].
Qed.

Lemma clear_actioning_run w l a name :
  field w l "actioning" = VRef a →
  clear_actioning (VRef l) name w = (Normal (), write a name (VBool false) w).
Proof.
  intros Ha. unfold clear_actioning, bind, get_prop. by rewrite Ha.
Qed.

End Store.

(** ** What the calls and the callbacks compute *)

Section Handlers.

Implicit Types (w : world) (item a : loc) (response v : value) (o : outcome).

Lemma spike_call item w :
  spike item w =
  (Normal (Then (length (requests w)) (spike_fulfilled item) (spike_rejected item)),
   sent w (ReqUpdate "archive_spike" item {[ "state" := VStr "spiked" ]})).
Proof. reflexivity. Qed.

Lemma unspike_call item w :
  unspike item w =
  (Normal (Then (length (requests w)) (unspike_fulfilled item) (unspike_rejected item)),
   sent w (ReqUpdate "archive_unspike" item ∅)).
Proof. reflexivity. Qed.

Lemma field_deselect w item l k : field (deselect w item) l k = field w l k.
Proof. unfold deselect. by destruct (strict_eq _ _). Qed.

Lemma spike_fulfilled_run item a v w :
  field w item "actioning" = VRef a →
  spike_fulfilled item v w =
  (Normal VUndefined, write a "spike" (VBool false) (deselect w item)).
Proof.
  intros Ha. unfold spike_fulfilled, bind, location_search, get_prop, when, deselect.
  destruct (strict_eq _ _); simpl;
    (erewrite clear_actioning_run; [reflexivity | exact Ha]).
Qed.

Lemma spike_rejected_run item a response w :
  field w item "actioning" = VRef a →
  spike_rejected item response w =
  (Normal VUndefined,
   write a "spike" (VBool false) (write item "error" response w)).
Proof.
  intros Ha. unfold spike_rejected, bind, set_prop.
  erewrite clear_actioning_run; [reflexivity |].
  by rewrite field_write_key.
Qed.

Lemma unspike_fulfilled_run item a v w :
  field w item "actioning" = VRef a →
  unspike_fulfilled item v w = (Normal VUndefined, write a "unspike" (VBool false) w).
Proof.
  intros Ha. unfold unspike_fulfilled, bind.
  by erewrite clear_actioning_run.
Qed.

Lemma unspike_rejected_run item a response w :
  field w item "actioning" = VRef a →
  unspike_rejected item response w =
  (Normal VUndefined,
   write a "unspike" (VBool false) (write item "error" response w)).
Proof.
  intros Ha. unfold unspike_rejected, bind, set_prop.
  erewrite clear_actioning_run; [reflexivity |].
  by rewrite field_write_key.
Qed.

(** Whatever [l.actioning] holds, clearing a flag touches at most that
    flag. *)
Lemma clear_actioning_frame w l name :
  let w' := (clear_actioning (VRef l) name w).2 in
  search w' = search w ∧ current_desk w' = current_desk w ∧
  requests w' = requests w ∧
  ∀ l' k', ¬ (field w l "actioning" = VRef l' ∧ k' = name) →
           slot w' l' k' = slot w l' k'.
Proof.
  unfold clear_actioning, bind, get_prop.
  destruct (field w l "actioning") as [| | | | |a] eqn:Ha; simpl;
    repeat split; try done.
  intros l' k' Hne. rewrite slot_write, decide_False; [done |].
  intros [-> ->]. by apply Hne.
Qed.

Lemma flag_cleared w item a name :
  name ≠ "actioning" →
  field w item "actioning" = VRef a →
  flag (write a name (VBool false) w) item name = Some (VBool false).
Proof.
  intros Hn Ha. unfold flag.
  rewrite field_write_key, Ha; [| done]. by rewrite field_write_eq.
Qed.

Lemma spike_fulfilled_world item v w :
  (spike_fulfilled item v w).2 =
  (clear_actioning (VRef item) "spike" (deselect w item)).2.
Proof.
  unfold spike_fulfilled, bind, location_search, get_prop, when, deselect.
  destruct (strict_eq _ _); simpl;
    by destruct (clear_actioning _ _ _) as [[?|?] ?].
Qed.

Lemma spike_rejected_world item response w :
  (spike_rejected item response w).2 =
  (clear_actioning (VRef item) "spike" (write item "error" response w)).2.
Proof.
  unfold spike_rejected, bind, set_prop.
  by destruct (clear_actioning _ _ _) as [[?|?] ?].
Qed.

Lemma unspike_fulfilled_world item v w :
  (unspike_fulfilled item v w).2 = (clear_actioning (VRef item) "unspike" w).2.
Proof.
  unfold unspike_fulfilled, bind.
  by destruct (clear_actioning _ _ _) as [[?|?] ?].
Qed.

Lemma unspike_rejected_world item response w :
  (unspike_rejected item response w).2 =
  (clear_actioning (VRef item) "unspike" (write item "error" response w)).2.
Proof.
  unfold unspike_rejected, bind, set_prop.
  by destruct (clear_actioning _ _ _) as [[?|?] ?].
Qed.

(** Settlement of the request of [spike], whatever the outcome. *)
Lemma spike_settled n item a o w :
  field w item "actioning" = VRef a →
  ∃ w'',
    settle (Then n (spike_fulfilled item) (spike_rejected item)) o w
      = (Normal VUndefined, w'')
    ∧ requests w'' = requests w
    ∧ flag w'' item "spike" = Some (VBool false).
Proof.
  intros Ha. destruct o as [v|response]; eexists; simpl.
  - split; [by apply spike_fulfilled_run |]. split.
    + unfold deselect. by destruct (strict_eq _ _).
    + apply flag_cleared; [done |]. by rewrite field_deselect.
  - split; [by apply spike_rejected_run |]. split; [done |].
    apply flag_cleared; [done |]. by rewrite field_write_key.
Qed.

(** What the rejection callbacks leave on the item. *)
Lemma rejected_item_state w item a name response :
  name ≠ "actioning" → name ≠ "error" →
  field w item "actioning" = VRef a →
  let w'' := write a name (VBool false) (write item "error" response w) in
  field w'' item "error" = response
  ∧ flag w'' item name = Some (VBool false)
  ∧ requests w'' = requests w.
Proof.
  intros Hn1 Hn2 Ha. simpl. split; [| split; [| done]].
  - rewrite field_write_key; [| done]. apply field_write_eq.
  - apply flag_cleared; [done |]. by rewrite field_write_key.
Qed.

(** The [error] slot of any object across the callbacks. *)
Lemma clear_actioning_keeps_error w item name l :
  name ≠ "error" →
  slot (clear_actioning (VRef item) name w).2 l "error" = slot w l "error".
Proof.
  intros Hn. destruct (clear_actioning_frame w item name) as (_ & _ & _ & Hslot).
  apply Hslot. by intros [_ ?].
Qed.

Lemma archiveContent_call data item w :
  field w data "item" = VRef item →
  archiveContent data w =
  (Normal (Then (length (requests w))
             (archiveContent_fulfilled data) (archiveContent_rejected data)),
   sent w (ReqCreate "archiveIngest"
             (<["guid" := field w item "guid"]> {[ "desk" := current_desk w ]}))).
Proof.
  intros Hd. unfold archiveContent, bind, get_prop. by rewrite Hd.
Qed.

Lemma archiveContent_fulfilled_run data item a res w :
  field w data "item" = VRef item →
  field w item "actioning" = VRef a →
  archiveContent_fulfilled data (VRef res) w =
  (Normal VUndefined,
   let w1 := write item "task_id" (field w res "task_id") w in
   write a "archiveContent" (VBool false)
     (write item "created" (field w1 res "created") w1)).
Proof.
  intros Hd Ha. unfold archiveContent_fulfilled, bind, get_prop, set_prop.
  rewrite Hd. rewrite !field_write_key, Hd; [| done..]. simpl.
  rewrite !field_write_key, Hd; [| done..].
  erewrite clear_actioning_run; [reflexivity |].
  by rewrite !field_write_key.
Qed.

Lemma archiveContent_rejected_run data item a response w :
  field w data "item" = VRef item →
  field w item "actioning" = VRef a →
  archiveContent_rejected data response w =
  (Normal VUndefined,
   write a "archiveContent" (VBool false) (write item "error" response w)).
Proof.
  intros Hd Ha. unfold archiveContent_rejected, bind, get_prop, set_prop.
  rewrite Hd. rewrite field_write_key, Hd; [| done].
  erewrite clear_actioning_run; [reflexivity |].
  by rewrite field_write_key.
Qed.

(** The slots that clearing a flag, alone or after [item.error] was
    recorded, leaves as they were. *)
Lemma clear_actioning_confined w item name l k :
  ¬ (field w item "actioning" = VRef l ∧ k = name) →
  slot (clear_actioning (VRef item) name w).2 l k = slot w l k.
Proof.
  intros Hne. destruct (clear_actioning_frame w item name) as (_ & _ & _ & Hslot).
  by apply Hslot.
Qed.

Lemma rejected_confined w item name response l k :
  name ≠ "actioning" →
  ¬ (l = item ∧ k = "error") →
  ¬ (field w item "actioning" = VRef l ∧ k = name) →
  slot (clear_actioning (VRef item) name (write item "error" response w)).2 l k
  = slot w l k.
Proof.
  intros Hn Herr Hflag. rewrite clear_actioning_confined.
  - rewrite slot_write, decide_False; [done |]. intros [<- <-]. by apply Herr.
  - by rewrite field_write_key.
Qed.

Lemma clear_actioning_rest w item name :
  let w' := (clear_actioning (VRef item) name w).2 in
  search w' = search w ∧ current_desk w' = current_desk w ∧ requests w' = requests w.
Proof.
  destruct (clear_actioning_frame w item name) as (? & ? & ? & _). by repeat split.
Qed.

End Handlers.

(** ** The callbacks on concrete worlds *)

(** The selected item is spiked: the selection goes, the flag falls. *)
Example spike_selected_item :
  let w := sample {[ "spike" := VBool true ]} in
  spike_fulfilled 1 VUndefined w
  = (Normal VUndefined,
     World (<[2%positive := {[ "spike" := VBool false ]}]> (heap w))
           ∅ (VStr "desk1") []).
Proof. reflexivity. Qed.

(** Another item is in view: the selection stays. *)
Example spike_other_item_in_view :
  let w := World (heap (sample ∅)) {[ "_id" := VStr "b7" ]} VNull [] in
  search (spike_fulfilled 1 VUndefined w).2 = {[ "_id" := VStr "b7" ]}.
Proof. reflexivity. Qed.

(** An item without an [actioning] object: the assignment of the flag
    raises [TypeError] inside the callback, after [error] was recorded. *)
Example spike_rejected_without_actioning :
  let w := World {[ 1%positive := {[ "_id" := VStr "a1" ]} ]} ∅ VNull [] in
  spike_rejected 1 (VStr "gone") w
  = (Throw TypeError, write 1 "error" (VStr "gone") w).
Proof. reflexivity. Qed.

(** ** The spike service: requests and flags *)

(** C1. For every item whose [actioning] is an object when the request
    settles, [spike item] sends exactly one request, an update of
    ['archive_spike'] carrying the item and the patch [{state: 'spiked'}];
    the callback run at settlement, on success as on failure, returns
    normally, sends nothing more and leaves [item.actioning.spike] false. *)
Theorem spike_sends_one_update_and_clears_flag
    (item a : loc) (w w' : world) (o : outcome) :
  field w' item "actioning" = VRef a →
  ∃ r w1 w'',
    spike item w = (Normal r, w1)
    ∧ requests w1 =
      requests w ++ [ReqUpdate "archive_spike" item {[ "state" := VStr "spiked" ]}]
    ∧ settle r o w' = (Normal VUndefined, w'')
    ∧ requests w'' = requests w'
    ∧ flag w'' item "spike" = Some (VBool false).
Proof.
  intros Ha.
  destruct (spike_settled (length (requests w)) item a o w' Ha) as (w'' & Hrun & Hreq & Hflag).
  eexists _, _, w''. split; [apply spike_call |]. by repeat split.
Qed.

Lemma spike_sends_one_update_and_clears_flag_witness :
  field (sample {[ "spike" := VBool true ]}) 1 "actioning" = VRef 2 ∧
  ∃ r w1 w'',
    spike 1 (sample ∅) = (Normal r, w1)
    ∧ requests w1 =
      requests (sample ∅) ++ [ReqUpdate "archive_spike" 1 {[ "state" := VStr "spiked" ]}]
    ∧ settle r (Rejected (VStr "gone")) (sample {[ "spike" := VBool true ]})
      = (Normal VUndefined, w'')
    ∧ requests w'' = requests (sample {[ "spike" := VBool true ]})
    ∧ flag w'' 1 "spike" = Some (VBool false).
Proof.
  split; [reflexivity |].
  apply (spike_sends_one_update_and_clears_flag 1 2); reflexivity.
Defined.

(** An item at rest: its flag is false before [spike] is called, and it is
    still false once the call has returned. *)
Lemma spike_call_leaves_flag_down :
  ∃ r w1,
    spike 1 (sample {[ "spike" := VBool false ]}) = (Normal r, w1)
    ∧ flag w1 1 "spike" = Some (VBool false)
    ∧ flag w1 1 "spike" ≠ Some (VBool true).
Proof. do 2 eexists. split; [apply spike_call |]. by split. Qed.

(** C2, amended. The call of [spike] writes nothing to the store: when it
    returns, [item.actioning.spike] is what the caller left there. Once the
    request settles, with either outcome, the flag is false. *)
Theorem spike_flag_untouched_until_settled
    (item a : loc) (w w' : world) (o : outcome) :
  field w' item "actioning" = VRef a →
  ∃ r w1 w'',
    spike item w = (Normal r, w1)
    ∧ heap w1 = heap w
    ∧ flag w1 item "spike" = flag w item "spike"
    ∧ settle r o w' = (Normal VUndefined, w'')
    ∧ flag w'' item "spike" = Some (VBool false).
Proof.
  intros Ha.
  destruct (spike_settled (length (requests w)) item a o w' Ha) as (w'' & Hrun & _ & Hflag).
  eexists _, _, w''. split; [apply spike_call |]. by repeat split.
Qed.

Lemma spike_flag_untouched_until_settled_witness :
  field (sample {[ "spike" := VBool true ]}) 1 "actioning" = VRef 2 ∧
  ∃ r w1 w'',
    spike 1 (sample {[ "spike" := VBool true ]}) = (Normal r, w1)
    ∧ heap w1 = heap (sample {[ "spike" := VBool true ]})
    ∧ flag w1 1 "spike" = flag (sample {[ "spike" := VBool true ]}) 1 "spike"
    ∧ settle r (Fulfilled VUndefined) (sample {[ "spike" := VBool true ]})
      = (Normal VUndefined, w'')
    ∧ flag w'' 1 "spike" = Some (VBool false).
Proof.
  split; [reflexivity |].
  apply (spike_flag_untouched_until_settled 1 2); reflexivity.
Defined.

(** ** The selection in view *)

(** C3. When the request of [spike] succeeds, the query parameter [_id]
    is removed if it is strictly equal to [item._id], and the query
    parameters are left as they were if it is not. Hence a selection that
    is being tracked is cleared exactly when it is the item's identifier. *)
Theorem spike_success_clears_selection_iff_same
    (item : loc) (w w' : world) (v : value) :
  ∃ r w1 res w'',
    spike item w = (Normal r, w1)
    ∧ settle r (Fulfilled v) w' = (res, w'')
    ∧ (own_prop (search w') "_id" = field w' item "_id" →
       search w'' = delete "_id" (search w'))
    ∧ (own_prop (search w') "_id" ≠ field w' item "_id" →
       search w'' = search w')
    ∧ (∀ s, search w' !! "_id" = Some s →
            (search w'' !! "_id" = None ↔ s = field w' item "_id")).
Proof.
  eexists _, _, (spike_fulfilled item v w').1, (spike_fulfilled item v w').2.
  split; [apply spike_call |]. split; [simpl; by destruct (spike_fulfilled _ _ _) |].
  rewrite spike_fulfilled_world.
  destruct (clear_actioning_frame (deselect w' item) item "spike") as (-> & _).
  unfold deselect, strict_eq. case_bool_decide as Heq; simpl.
  - split; [done |]. split; [done |].
    intros s Hs. rewrite lookup_delete_eq. split; [intros _ | done].
    unfold own_prop in Heq. rewrite Hs in Heq. exact Heq.
  - split; [done |]. split; [done |].
    intros s Hs. rewrite Hs. split; [done |].
    intros ->. unfold own_prop in Heq. by rewrite Hs in Heq.
Qed.

(** C10. When the request of [spike] fails, the callback leaves the query
    parameters as they were, also when [_id] is the item's identifier. *)
Theorem spike_failure_keeps_selection
    (item : loc) (w w' : world) (response : value) :
  ∃ r w1 res w'',
    spike item w = (Normal r, w1)
    ∧ settle r (Rejected response) w' = (res, w'')
    ∧ search w'' = search w'.
Proof.
  eexists _, _, (spike_rejected item response w').1, (spike_rejected item response w').2.
  split; [apply spike_call |]. split; [simpl; by destruct (spike_rejected _ _ _) |].
  rewrite spike_rejected_world.
  by destruct (clear_actioning_frame (write item "error" response w') item "spike")
    as (-> & _).
Qed.

(** ** Failures *)

(** C4. When the request of [spike] or of [unspike] is rejected with
    [response], for an item whose [actioning] is an object, the rejection
    callback returns normally (nothing is thrown), sends no request (there
    is no retry), and leaves [item.error] equal to [response] and the
    flag of the operation false. *)
Theorem rejection_records_error_and_clears_flag
    (item a : loc) (w w' : world) (response : value) :
  field w' item "actioning" = VRef a →
  (∃ r w1 w'',
     spike item w = (Normal r, w1)
     ∧ settle r (Rejected response) w' = (Normal VUndefined, w'')
     ∧ field w'' item "error" = response
     ∧ flag w'' item "spike" = Some (VBool false)
     ∧ requests w'' = requests w')
  ∧ (∃ r w1 w'',
     unspike item w = (Normal r, w1)
     ∧ settle r (Rejected response) w' = (Normal VUndefined, w'')
     ∧ field w'' item "error" = response
     ∧ flag w'' item "unspike" = Some (VBool false)
     ∧ requests w'' = requests w').
Proof.
  intros Ha. split.
  - do 3 eexists. split; [apply spike_call |].
    split; [simpl; by apply spike_rejected_run |].
    by apply rejected_item_state.
  - do 3 eexists. split; [apply unspike_call |].
    split; [simpl; by apply unspike_rejected_run |].
    by apply rejected_item_state.
Qed.

Lemma rejection_records_error_and_clears_flag_witness :
  field (sample {[ "spike" := VBool true ]}) 1 "actioning" = VRef 2 ∧
  (∃ r w1 w'',
     spike 1 (sample ∅) = (Normal r, w1)
     ∧ settle r (Rejected (VStr "gone")) (sample {[ "spike" := VBool true ]})
       = (Normal VUndefined, w'')
     ∧ field w'' 1 "error" = VStr "gone"
     ∧ flag w'' 1 "spike" = Some (VBool false)
     ∧ requests w'' = requests (sample {[ "spike" := VBool true ]}))
  ∧ (∃ r w1 w'',
     unspike 1 (sample ∅) = (Normal r, w1)
     ∧ settle r (Rejected (VStr "gone")) (sample {[ "spike" := VBool true ]})
       = (Normal VUndefined, w'')
     ∧ field w'' 1 "error" = VStr "gone"
     ∧ flag w'' 1 "unspike" = Some (VBool false)
     ∧ requests w'' = requests (sample {[ "spike" := VBool true ]})).
Proof.
  split; [reflexivity |].
  apply (rejection_records_error_and_clears_flag 1 2); reflexivity.
Defined.

(** A failed [spike] followed by a successful one: the payload of the
    failure is still on the item after the success. *)
Lemma error_outlives_a_later_success :
  ∃ r1 w1 w2 r2 w3 w4,
    spike 1 (sample {[ "spike" := VBool true ]}) = (Normal r1, w1)
    ∧ settle r1 (Rejected (VStr "gone")) w1 = (Normal VUndefined, w2)
    ∧ spike 1 w2 = (Normal r2, w3)
    ∧ settle r2 (Fulfilled VUndefined) w3 = (Normal VUndefined, w4)
    ∧ slot w4 1 "error" = Some (VStr "gone")
    ∧ slot w4 1 "error" ≠ None.
Proof.
  do 6 eexists. split; [apply spike_call |].
  split; [reflexivity |]. split; [apply spike_call |].
  split; [reflexivity |]. by split.
Qed.

(** C5, amended. [item.error] is written only by a rejection callback,
    which stores the payload of that failure. The call of [spike] or
    [unspike] and their success callbacks leave the [error] property as it
    was: absent if the item never failed, the payload of the last failure
    otherwise. *)
Theorem error_written_only_by_failure
    (item : loc) (w w' : world) (v response : value) :
  (∃ r w1,
     spike item w = (Normal r, w1)
     ∧ heap w1 = heap w
     ∧ slot (settle r (Fulfilled v) w').2 item "error" = slot w' item "error"
     ∧ slot (settle r (Rejected response) w').2 item "error" = Some response)
  ∧ (∃ r w1,
     unspike item w = (Normal r, w1)
     ∧ heap w1 = heap w
     ∧ slot (settle r (Fulfilled v) w').2 item "error" = slot w' item "error"
     ∧ slot (settle r (Rejected response) w').2 item "error" = Some response).
Proof.
  split; do 2 eexists.
  - split; [apply spike_call |]. split; [done |]. simpl. split.
    + rewrite spike_fulfilled_world, clear_actioning_keeps_error; [| done].
      unfold deselect. by destruct (strict_eq _ _).
    + rewrite spike_rejected_world, clear_actioning_keeps_error; [| done].
      rewrite slot_write. by rewrite decide_True.
  - split; [apply unspike_call |]. split; [done |]. simpl. split.
    + by rewrite unspike_fulfilled_world, clear_actioning_keeps_error.
    + rewrite unspike_rejected_world, clear_actioning_keeps_error; [| done].
      rewrite slot_write. by rewrite decide_True.
Qed.

(** ** Unspike and fetch *)

(** C6. For every item whose [actioning] is an object when the request
    settles, [unspike item] sends an update of ['archive_unspike'] with the
    item and an empty patch; on success the callback leaves
    [item.actioning.unspike] false, on failure it leaves [item.error] equal
    to the rejection payload and [item.actioning.unspike] false. *)
Theorem unspike_sends_empty_update_and_clears_flag
    (item a : loc) (w w' : world) (v response : value) :
  field w' item "actioning" = VRef a →
  ∃ r w1 ws wf,
    unspike item w = (Normal r, w1)
    ∧ requests w1 = requests w ++ [ReqUpdate "archive_unspike" item ∅]
    ∧ settle r (Fulfilled v) w' = (Normal VUndefined, ws)
    ∧ flag ws item "unspike" = Some (VBool false)
    ∧ settle r (Rejected response) w' = (Normal VUndefined, wf)
    ∧ field wf item "error" = response
    ∧ flag wf item "unspike" = Some (VBool false).
Proof.
  intros Ha. do 4 eexists. split; [apply unspike_call |]. split; [done |].
  split; [simpl; by apply unspike_fulfilled_run |].
  split; [by apply flag_cleared |].
  split; [simpl; by apply unspike_rejected_run |].
  destruct (rejected_item_state w' item a "unspike" response) as (He & Hf & _);
    done.
Qed.

Lemma unspike_sends_empty_update_and_clears_flag_witness :
  field (sample {[ "unspike" := VBool true ]}) 1 "actioning" = VRef 2 ∧
  ∃ r w1 ws wf,
    unspike 1 (sample ∅) = (Normal r, w1)
    ∧ requests w1 = requests (sample ∅) ++ [ReqUpdate "archive_unspike" 1 ∅]
    ∧ settle r (Fulfilled VNull) (sample {[ "unspike" := VBool true ]})
      = (Normal VUndefined, ws)
    ∧ flag ws 1 "unspike" = Some (VBool false)
    ∧ settle r (Rejected (VStr "gone")) (sample {[ "unspike" := VBool true ]})
      = (Normal VUndefined, wf)
    ∧ field wf 1 "error" = VStr "gone"
    ∧ flag wf 1 "unspike" = Some (VBool false).
Proof.
  split; [reflexivity |].
  apply (unspike_sends_empty_update_and_clears_flag 1 2); reflexivity.
Defined.

(** C7. The [archiveContent] controller, started with locals whose [item]
    is an object, sends a creation request to the ingest resource with the
    item's [guid] and the current desk identifier. When the request
    succeeds with an object, the callback copies its [task_id] and
    [created] onto the item and leaves [actioning.archiveContent] false;
    when it fails, the callback leaves [item.error] equal to the rejection
    payload and [actioning.archiveContent] false. *)
Theorem archiveContent_creates_then_copies_or_records
    (data item a res : loc) (w w' : world) (response : value) :
  field w data "item" = VRef item →
  field w' data "item" = VRef item →
  field w' item "actioning" = VRef a →
  ∃ r w1 ws wf,
    archiveContent data w = (Normal r, w1)
    ∧ requests w1 =
      requests w ++ [ReqCreate "archiveIngest"
                       (<["guid" := field w item "guid"]> {[ "desk" := current_desk w ]})]
    ∧ settle r (Fulfilled (VRef res)) w' = (Normal VUndefined, ws)
    ∧ field ws item "task_id" = field w' res "task_id"
    ∧ field ws item "created" = field w' res "created"
    ∧ flag ws item "archiveContent" = Some (VBool false)
    ∧ settle r (Rejected response) w' = (Normal VUndefined, wf)
    ∧ field wf item "error" = response
    ∧ flag wf item "archiveContent" = Some (VBool false).
Proof.
  intros Hd Hd' Ha. do 4 eexists.
  split; [by apply archiveContent_call |]. split; [done |].
  split; [simpl; by apply archiveContent_fulfilled_run |]. simpl.
  split; [| split; [| split]].
  - do 2 (rewrite field_write_key; [| done]). apply field_write_eq.
  - rewrite field_write_key; [| done]. rewrite field_write_eq.
    by rewrite field_write_key.
  - apply flag_cleared; [done |]. by rewrite !field_write_key.
  - split; [simpl; by apply archiveContent_rejected_run |].
    destruct (rejected_item_state w' item a "archiveContent" response)
      as (He & Hf & _); done.
Qed.

Lemma archiveContent_creates_then_copies_or_records_witness :
  field fetching 3 "item" = VRef 1 ∧
  field fetching 1 "actioning" = VRef 2 ∧
  ∃ r w1 ws wf,
    archiveContent 3 fetching = (Normal r, w1)
    ∧ requests w1 =
      requests fetching ++ [ReqCreate "archiveIngest"
                              (<["guid" := field fetching 1 "guid"]>
                                 {[ "desk" := current_desk fetching ]})]
    ∧ settle r (Fulfilled (VRef 4)) fetching = (Normal VUndefined, ws)
    ∧ field ws 1 "task_id" = field fetching 4 "task_id"
    ∧ field ws 1 "created" = field fetching 4 "created"
    ∧ flag ws 1 "archiveContent" = Some (VBool false)
    ∧ settle r (Rejected (VStr "gone")) fetching = (Normal VUndefined, wf)
    ∧ field wf 1 "error" = VStr "gone"
    ∧ flag wf 1 "archiveContent" = Some (VBool false).
Proof.
  split; [reflexivity |]. split; [reflexivity |].
  apply (archiveContent_creates_then_copies_or_records 3 1 2 4); reflexivity.
Defined.

(** ** Frame *)

(** C8. The call of [spike] or [unspike] changes nothing but the request
    log. The callback run at settlement, with either outcome, sends no
    request, leaves the current desk alone, and in the store changes at
    most the [error] property of the item and the flag of the operation in
    the item's [actioning] object: every other property of the item and of
    every other object is as before. [unspike] leaves the query parameters
    as they were; [spike] changes at most the parameter [_id]. *)
Theorem spike_and_unspike_effects_confined
    (item : loc) (w w' : world) (o : outcome) :
  (∃ r w1,
     spike item w = (Normal r, w1)
     ∧ heap w1 = heap w ∧ search w1 = search w ∧ current_desk w1 = current_desk w
     ∧ current_desk (settle r o w').2 = current_desk w'
     ∧ requests (settle r o w').2 = requests w'
     ∧ (∀ k, k ≠ "_id" → search (settle r o w').2 !! k = search w' !! k)
     ∧ (∀ l k, ¬ (l = item ∧ k = "error") →
               ¬ (field w' item "actioning" = VRef l ∧ k = "spike") →
               slot (settle r o w').2 l k = slot w' l k))
  ∧ (∃ r w1,
     unspike item w = (Normal r, w1)
     ∧ heap w1 = heap w ∧ search w1 = search w ∧ current_desk w1 = current_desk w
     ∧ current_desk (settle r o w').2 = current_desk w'
     ∧ requests (settle r o w').2 = requests w'
     ∧ search (settle r o w').2 = search w'
     ∧ (∀ l k, ¬ (l = item ∧ k = "error") →
               ¬ (field w' item "actioning" = VRef l ∧ k = "unspike") →
               slot (settle r o w').2 l k = slot w' l k)).
Proof.
  split; do 2 eexists.
  - split; [apply spike_call |]. do 3 (split; [done |]).
    destruct o as [v|response]; simpl.
    + rewrite spike_fulfilled_world.
      destruct (clear_actioning_rest (deselect w' item) item "spike") as (-> & -> & ->).
      assert (Hd : heap (deselect w' item) = heap w'
                   ∧ current_desk (deselect w' item) = current_desk w'
                   ∧ requests (deselect w' item) = requests w'
                   ∧ ∀ k, k ≠ "_id" → search (deselect w' item) !! k = search w' !! k).
      { unfold deselect. destruct (strict_eq _ _); simpl; repeat split; try done.
        intros k Hk. by rewrite lookup_delete_ne. }
      destruct Hd as (Hh & -> & -> & Hs). repeat split; try done.
      intros l k _ Hflag. rewrite clear_actioning_confined.
      * unfold slot. by rewrite Hh.
      * by rewrite field_deselect.
    + rewrite spike_rejected_world.
      destruct (clear_actioning_rest (write item "error" response w') item "spike")
        as (-> & -> & ->).
      repeat split; try done.
      intros l k Herr Hflag. by apply rejected_confined.
  - split; [apply unspike_call |]. do 3 (split; [done |]).
    destruct o as [v|response]; simpl.
    + rewrite unspike_fulfilled_world.
      destruct (clear_actioning_rest w' item "unspike") as (-> & -> & ->).
      repeat split; try done.
      intros l k _ Hflag. by apply clear_actioning_confined.
    + rewrite unspike_rejected_world.
      destruct (clear_actioning_rest (write item "error" response w') item "unspike")
        as (-> & -> & ->).
      repeat split; try done.
      intros l k Herr Hflag. by apply rejected_confined.
Qed.

(** ** The users resource: the password is write-only *)

Section UsersFacts.

Import Users.

Lemma represent_hides_password (u : user) :
  mentions "password" (represent u) = false.
Proof. destruct u as [name pw [f|]]; reflexivity. Qed.

Lemma summaries_hide_password (us : list (string * user)) :
  existsb (mentions "password") (map (λ p, represent p.2) us) = false.
Proof.
  induction us as [|p us IH]; [done |].
  cbn [map existsb]. by rewrite IH, represent_hides_password.
Qed.

Lemma serve_hides_password (c : call) (db : gmap string user) (j : json) :
  body (serve c db).1 = Some j → mentions "password" j = false.
Proof.
  destruct c as [doc|name| |name doc|name]; simpl.
  - unfold post. destruct doc as [s|fs|js]; simpl; try done.
    destruct (as_string (assoc "username" fs)) as [n|]; simpl; [| done].
    destruct (as_string (assoc "password" fs)) as [pw|]; simpl; [| done].
    destruct (db !! n); simpl; [done |].
    intros [= <-]. apply represent_hides_password.
  - unfold fetch. destruct (db !! name); simpl; [| done].
    intros [= <-]. apply represent_hides_password.
  - intros [= <-]. simpl. by rewrite summaries_hide_password.
  - unfold patch. destruct (db !! name); [destruct doc |]; done.
  - unfold remove. destruct (db !! name); done.
Qed.

Lemma session_hides_password (cs : list call) (db : gmap string user)
    (r : response) (j : json) :
  r ∈ session cs db → body r = Some j → mentions "password" j = false.
Proof.
  revert db. induction cs as [|c cs IH]; intros db; simpl.
  - by intros ?%elem_of_nil.
  - destruct (serve c db) as [r0 db'] eqn:Hc.
    intros [->|Hin]%elem_of_cons Hb.
    + apply (serve_hides_password c db). by rewrite Hc.
    + by apply (IH db').
Qed.

(** C9. Posting [{"username": "foo", "password": "bar"}] to the empty
    resource creates a user whose representation matches
    [{"username": "foo", "_links": {"self": {"href": "/users/foo"}}}] and
    has no [password] member, as the scenario "Create a user" checks; and
    whatever calls follow, no response to any of them, the reads of the
    resource among them, has a [password] member. *)
Theorem created_user_never_shows_password :
  ∃ r db,
    post (JObj [("username", JStr "foo"); ("password", JStr "bar")]) ∅ = (r, db)
    ∧ status_of r = Created
    ∧ (∃ j, body r = Some j
            ∧ contains (JObj [("username", JStr "foo");
                              ("_links",
                               JObj [("self", JObj [("href", JStr "/users/foo")])])]) j
              = true
            ∧ mentions "password" j = false)
    ∧ fetch "foo" db = Response Success (body r)
    ∧ create_a_user = true
    ∧ ∀ (cs : list call) (r' : response) (j : json),
        r' ∈ session cs db → body r' = Some j → mentions "password" j = false.
Proof.
  do 2 eexists. split; [reflexivity |]. split; [reflexivity |].
  split; [eexists; by repeat split |].
  split; [reflexivity |]. split; [reflexivity |].
  intros cs r' j. apply session_hides_password.
Qed.

End UsersFacts.

(** * Beyond the claims: edge cases, frames and composition *)

Section Effects.

Implicit Types (w : world) (item a l : loc) (k name : string) (v response : value).

Lemma clear_actioning_eval item name w :
  clear_actioning (VRef item) name w = (clears w item, cleared item name w).
Proof.
  unfold clear_actioning, clears, cleared, bind, get_prop.
  by destruct (field w item "actioning").
Qed.

Lemma slot_cleared item name w l k :
  slot (cleared item name w) l k =
  if decide (field w item "actioning" = VRef l ∧ k = name)
  then Some (VBool false) else slot w l k.
Proof.
  unfold cleared. destruct (field w item "actioning") as [| | | | |a] eqn:Ha;
    try (rewrite decide_False; [done | by intros [??]]).
  rewrite slot_write. destruct (decide (a = l ∧ name = k)) as [[-> ->]|Hne].
  - by rewrite decide_True.
  - rewrite decide_False; [done |]. intros [[= ->] ->]. by apply Hne.
Qed.

Lemma field_cleared item name w l k :
  k ≠ name → field (cleared item name w) l k = field w l k.
Proof.
  intros Hk. rewrite !field_slot, slot_cleared, decide_False; [done | by intros [??]].
Qed.

Lemma rest_cleared item name w :
  search (cleared item name w) = search w
  ∧ current_desk (cleared item name w) = current_desk w
  ∧ requests (cleared item name w) = requests w.
Proof. unfold cleared. by destruct (field w item "actioning"). Qed.

Lemma clears_cleared item name w item' :
  name ≠ "actioning" → clears (cleared item name w) item' = clears w item'.
Proof. intros Hn. unfold clears. rewrite field_cleared; done. Qed.

Lemma clears_write l k x w item :
  k ≠ "actioning" → clears (write l k x w) item = clears w item.
Proof. intros Hk. unfold clears. by rewrite field_write_key. Qed.

Lemma slot_deselect w item l k : slot (deselect w item) l k = slot w l k.
Proof. unfold deselect. by destruct (strict_eq _ _). Qed.

Lemma clears_deselect w item item' : clears (deselect w item) item' = clears w item'.
Proof. unfold clears. by rewrite field_deselect. Qed.

Lemma rest_deselect w item :
  current_desk (deselect w item) = current_desk w
  ∧ requests (deselect w item) = requests w.
Proof. unfold deselect. by destruct (strict_eq _ _). Qed.

(** The callbacks in closed form: the completion and the world they leave. *)
Lemma spike_fulfilled_eval item v w :
  spike_fulfilled item v w =
  (finish (clears w item), cleared item "spike" (deselect w item)).
Proof.
  transitivity (let '(c, w') := clear_actioning (VRef item) "spike" (deselect w item)
                in (finish c, w')).
  - unfold spike_fulfilled, bind, location_search, get_prop, when, deselect.
    destruct (strict_eq _ _); simpl;
      by destruct (clear_actioning _ _ _) as [[?|?] ?].
  - by rewrite clear_actioning_eval, clears_deselect.
Qed.

Lemma spike_rejected_eval item response w :
  spike_rejected item response w =
  (finish (clears w item), cleared item "spike" (write item "error" response w)).
Proof.
  unfold spike_rejected, bind, set_prop.
  rewrite clear_actioning_eval, clears_write; [| done].
  by destruct (clears w item).
Qed.

Lemma unspike_fulfilled_eval item v w :
  unspike_fulfilled item v w = (finish (clears w item), cleared item "unspike" w).
Proof.
  unfold unspike_fulfilled, bind. rewrite clear_actioning_eval.
  by destruct (clears w item).
Qed.

Lemma unspike_rejected_eval item response w :
  unspike_rejected item response w =
  (finish (clears w item), cleared item "unspike" (write item "error" response w)).
Proof.
  unfold unspike_rejected, bind, set_prop.
  rewrite clear_actioning_eval, clears_write; [| done].
  by destruct (clears w item).
Qed.

End Effects.

(** ** Items that are not what the callbacks expect *)

Section Edges.

Implicit Types (w : world) (item data a l : loc) (v response : value).

Lemma clears_not_object w item :
  is_object (field w item "actioning") = false → clears w item = Throw TypeError.
Proof. unfold clears. by destruct (field w item "actioning"). Qed.

Lemma cleared_not_object w item name :
  is_object (field w item "actioning") = false → cleared item name w = w.
Proof. unfold cleared. by destruct (field w item "actioning"). Qed.

(** X1. When [item.actioning] is not an object at settlement, every
    callback of [spike] and [unspike] ends in a [TypeError]. What came
    before the assignment of the flag stays done: the success callback of
    [spike] has deselected the item, the two rejection callbacks have
    recorded [item.error]; nothing else has changed. *)
Theorem callbacks_throw_without_actioning_object
    (item : loc) (w0 w : world) (v response : value) :
  is_object (field w item "actioning") = false →
  (∃ r w1,
     spike item w0 = (Normal r, w1)
     ∧ settle r (Fulfilled v) w = (Throw TypeError, deselect w item)
     ∧ settle r (Rejected response) w
       = (Throw TypeError, write item "error" response w))
  ∧ (∃ r w1,
     unspike item w0 = (Normal r, w1)
     ∧ settle r (Fulfilled v) w = (Throw TypeError, w)
     ∧ settle r (Rejected response) w
       = (Throw TypeError, write item "error" response w)).
Proof.
  intros Hobj.
  assert (Hobj' : is_object (field (write item "error" response w) item "actioning")
                  = false) by by rewrite field_write_key.
  assert (Hobj'' : is_object (field (deselect w item) item "actioning") = false)
    by by rewrite field_deselect.
  split; do 2 eexists.
  - split; [apply spike_call |]. simpl.
    rewrite spike_fulfilled_eval, spike_rejected_eval.
    rewrite !cleared_not_object, clears_not_object; done.
  - split; [apply unspike_call |]. simpl.
    rewrite unspike_fulfilled_eval, unspike_rejected_eval.
    rewrite !cleared_not_object, clears_not_object; done.
Qed.

Lemma callbacks_throw_without_actioning_object_witness :
  is_object (field bare 1 "actioning") = false ∧
  (∃ r w1,
     spike 1 bare = (Normal r, w1)
     ∧ settle r (Fulfilled VUndefined) bare = (Throw TypeError, deselect bare 1)
     ∧ settle r (Rejected (VStr "gone")) bare
       = (Throw TypeError, write 1 "error" (VStr "gone") bare))
  ∧ (∃ r w1,
     unspike 1 bare = (Normal r, w1)
     ∧ settle r (Fulfilled VUndefined) bare = (Throw TypeError, bare)
     ∧ settle r (Rejected (VStr "gone")) bare
       = (Throw TypeError, write 1 "error" (VStr "gone") bare)).
Proof.
  split; [reflexivity |].
  apply (callbacks_throw_without_actioning_object 1 bare bare); reflexivity.
Defined.

(** X2. When [data.item] is [undefined] or [null], the [archiveContent]
    controller throws a [TypeError] before any request is sent and leaves
    the world as it was. When [data.item] is a boolean, a number or a
    string, the request is sent with an [undefined] [guid]. *)
Theorem archiveContent_on_a_non_object
    (data : loc) (w : world) :
  is_object (field w data "item") = false →
  if nullish (field w data "item")
  then archiveContent data w = (Throw TypeError, w)
  else ∃ r,
    archiveContent data w =
    (Normal r,
     sent w (ReqCreate "archiveIngest"
               (<["guid" := VUndefined]> {[ "desk" := current_desk w ]}))).
Proof.
  unfold archiveContent, bind, get_prop.
  destruct (field w data "item"); simpl; try done; intros _; by eexists.
Qed.

Lemma archiveContent_on_a_non_object_witness :
  is_object (field stray 3 "item") = false ∧
  if nullish (field stray 3 "item")
  then archiveContent 3 stray = (Throw TypeError, stray)
  else ∃ r,
    archiveContent 3 stray =
    (Normal r,
     sent stray (ReqCreate "archiveIngest"
                   (<["guid" := VUndefined]> {[ "desk" := current_desk stray ]}))).
Proof.
  split; [reflexivity |]. apply (archiveContent_on_a_non_object 3 stray). reflexivity.
Defined.

Lemma archiveContent_reaction data w0 r w1 :
  archiveContent data w0 = (Normal r, w1) →
  r = Then (length (requests w0))
        (archiveContent_fulfilled data) (archiveContent_rejected data)
  ∧ w1 = sent w0 (ReqCreate "archiveIngest"
                    (<["guid" := read w0 (field w0 data "item") "guid"]>
                       {[ "desk" := current_desk w0 ]})).
Proof.
  unfold archiveContent, bind, get_prop.
  destruct (field w0 data "item"); simpl; try done; by intros [= <- <-].
Qed.

Lemma archiveContent_fulfilled_eval data item v w :
  field w data "item" = VRef item →
  nullish v = false →
  archiveContent_fulfilled data v w =
  (finish (clears w item),
   cleared item "archiveContent"
     (write item "created" (read w v "created")
        (write item "task_id" (read w v "task_id") w))).
Proof.
  intros Hd Hv.
  assert (Hstep : ∀ t c,
    (let! x := get_prop (VRef data) "item" in
     set_prop x "task_id" t >>
     let! x := get_prop (VRef data) "item" in
     set_prop x "created" c >>
     let! x := get_prop (VRef data) "item" in
     clear_actioning x "archiveContent" >>
     ret VUndefined) w
    = (finish (clears w item),
       cleared item "archiveContent"
         (write item "created" c (write item "task_id" t w)))).
  { intros t c. unfold bind, get_prop, set_prop. rewrite Hd.
    rewrite field_write_key, Hd; [| done]. simpl.
    rewrite !field_write_key, Hd; [| done..].
    rewrite clear_actioning_eval, !clears_write; [| done..].
    by destruct (clears w item). }
  destruct v as [| | b|n|s|res]; try done; cbn [read].
  1-3: rewrite <- (Hstep VUndefined VUndefined);
       unfold archiveContent_fulfilled, bind, get_prop, set_prop, ret;
       rewrite Hd; simpl; by rewrite field_write_key, Hd.
  rewrite <- (Hstep (field w res "task_id") (field w res "created")).
  unfold archiveContent_fulfilled, bind, get_prop, set_prop. rewrite Hd. simpl.
  rewrite !field_write_key, Hd; done.
Qed.

Lemma archiveContent_rejected_eval data item response w :
  field w data "item" = VRef item →
  archiveContent_rejected data response w =
  (finish (clears w item),
   cleared item "archiveContent" (write item "error" response w)).
Proof.
  intros Hd. unfold archiveContent_rejected, bind, get_prop, set_prop. rewrite Hd.
  rewrite field_write_key, Hd; [| done].
  rewrite clear_actioning_eval, clears_write; [| done].
  by destruct (clears w item).
Qed.

Lemma archiveContent_callbacks_stray data v response w :
  is_object (field w data "item") = false →
  archiveContent_fulfilled data v w = (Throw TypeError, w)
  ∧ archiveContent_rejected data response w = (Throw TypeError, w).
Proof.
  unfold archiveContent_fulfilled, archiveContent_rejected, bind, get_prop, set_prop.
  destruct (field w data "item"); try done; intros _; by destruct v.
Qed.

Lemma archiveContent_fulfilled_nullish data v w :
  nullish v = true → archiveContent_fulfilled data v w = (Throw TypeError, w).
Proof.
  unfold archiveContent_fulfilled, bind, get_prop.
  by destruct v.
Qed.

(** X3. When [data.item] is not an object at settlement, both callbacks of
    [archiveContent] end in a [TypeError] and leave the world as it was:
    the rejection payload is recorded nowhere and no flag is cleared. *)
Theorem archiveContent_outcome_lost_without_item
    (data : loc) (w0 w1 w : world) (r : reaction) (o : outcome) :
  archiveContent data w0 = (Normal r, w1) →
  is_object (field w data "item") = false →
  settle r o w = (Throw TypeError, w).
Proof.
  intros [-> _]%archiveContent_reaction Hobj.
  destruct o as [v|response]; simpl.
  - by destruct (archiveContent_callbacks_stray data v VUndefined w Hobj).
  - by destruct (archiveContent_callbacks_stray data VUndefined response w Hobj).
Qed.

Lemma archiveContent_outcome_lost_without_item_witness :
  archiveContent 3 stray
  = (Normal (Then 0 (archiveContent_fulfilled 3) (archiveContent_rejected 3)),
     sent stray (ReqCreate "archiveIngest"
                   (<["guid" := VUndefined]> {[ "desk" := VStr "desk1" ]})))
  ∧ is_object (field stray 3 "item") = false
  ∧ settle (Then 0 (archiveContent_fulfilled 3) (archiveContent_rejected 3))
      (Rejected (VStr "gone")) stray
    = (Throw TypeError, stray).
Proof.
  split; [reflexivity |]. split; [reflexivity |].
  eapply (archiveContent_outcome_lost_without_item 3 stray); reflexivity.
Defined.

(** X4. When the creation request succeeds with [undefined] or [null],
    the success callback of [archiveContent] ends in a [TypeError] before
    it has written anything: the item is untouched and its
    [actioning.archiveContent] flag is not cleared. *)
Theorem archiveContent_empty_answer_clears_nothing
    (data : loc) (w0 w1 w : world) (r : reaction) (v : value) :
  archiveContent data w0 = (Normal r, w1) →
  nullish v = true →
  settle r (Fulfilled v) w = (Throw TypeError, w).
Proof.
  intros [-> _]%archiveContent_reaction Hv. simpl.
  by apply archiveContent_fulfilled_nullish.
Qed.

Lemma archiveContent_empty_answer_clears_nothing_witness :
  archiveContent 3 fetching
  = (Normal (Then 0 (archiveContent_fulfilled 3) (archiveContent_rejected 3)),
     sent fetching (ReqCreate "archiveIngest"
                      (<["guid" := VStr "g1"]> {[ "desk" := VStr "desk1" ]})))
  ∧ nullish VNull = true
  ∧ settle (Then 0 (archiveContent_fulfilled 3) (archiveContent_rejected 3))
      (Fulfilled VNull) fetching
    = (Throw TypeError, fetching).
Proof.
  split; [reflexivity |]. split; [reflexivity |].
  eapply (archiveContent_empty_answer_clears_nothing 3 fetching); reflexivity.
Defined.

(** X5. Whatever the creation request succeeds with, other than
    [undefined] and [null], the success callback overwrites [task_id] and
    [created] of the item with what the answer has: with [undefined] when
    the answer lacks the property or is not an object. This needs no
    [actioning] object on the item. *)
Theorem archiveContent_overwrites_with_the_answer
    (data item : loc) (w0 w1 w : world) (r : reaction) (v : value) :
  archiveContent data w0 = (Normal r, w1) →
  field w data "item" = VRef item →
  nullish v = false →
  slot (settle r (Fulfilled v) w).2 item "task_id" = Some (read w v "task_id")
  ∧ slot (settle r (Fulfilled v) w).2 item "created" = Some (read w v "created").
Proof.
  intros [-> _]%archiveContent_reaction Hd Hv. simpl.
  rewrite (archiveContent_fulfilled_eval data item); [| done..]. simpl.
  rewrite !slot_cleared, !decide_False; [| by intros [??]..].
  rewrite !slot_write. rewrite decide_False; [| by intros [??]].
  by rewrite !decide_True.
Qed.

Lemma archiveContent_overwrites_with_the_answer_witness :
  archiveContent 3 fetching
  = (Normal (Then 0 (archiveContent_fulfilled 3) (archiveContent_rejected 3)),
     sent fetching (ReqCreate "archiveIngest"
                      (<["guid" := VStr "g1"]> {[ "desk" := VStr "desk1" ]})))
  ∧ field fetching 3 "item" = VRef 1
  ∧ nullish (VStr "done") = false
  ∧ slot (settle (Then 0 (archiveContent_fulfilled 3) (archiveContent_rejected 3))
            (Fulfilled (VStr "done")) fetching).2 1 "task_id"
    = Some (read fetching (VStr "done") "task_id")
  ∧ slot (settle (Then 0 (archiveContent_fulfilled 3) (archiveContent_rejected 3))
            (Fulfilled (VStr "done")) fetching).2 1 "created"
    = Some (read fetching (VStr "done") "created").
Proof.
  split; [reflexivity |]. split; [reflexivity |]. split; [reflexivity |].
  eapply (archiveContent_overwrites_with_the_answer 3 1 fetching); reflexivity.
Defined.

(** X6. The [archiveContent] controller, when it returns, has changed
    nothing but the request log. Its callbacks, with any outcome and in any
    world, send no request and leave the query parameters and the current
    desk alone; in the store they change at most [task_id], [created] and
    [error] of [data.item] and the flag [archiveContent] of its [actioning]
    object. *)
Theorem archiveContent_effects_confined
    (data : loc) (w0 w1 w : world) (r : reaction) (o : outcome) :
  archiveContent data w0 = (Normal r, w1) →
  heap w1 = heap w0 ∧ search w1 = search w0 ∧ current_desk w1 = current_desk w0
  ∧ search (settle r o w).2 = search w
  ∧ current_desk (settle r o w).2 = current_desk w
  ∧ requests (settle r o w).2 = requests w
  ∧ ∀ l k,
      ¬ (field w data "item" = VRef l
         ∧ (k = "task_id" ∨ k = "created" ∨ k = "error")) →
      ¬ (∃ item, field w data "item" = VRef item
                 ∧ field w item "actioning" = VRef l ∧ k = "archiveContent") →
      slot (settle r o w).2 l k = slot w l k.
Proof.
  intros [-> ->]%archiveContent_reaction. do 3 (split; [done |]).
  destruct (is_object (field w data "item")) eqn:Hobj.
  - destruct (field w data "item") as [| | | | |item] eqn:Hd; try done.
    assert (Hsettled : ∃ w2,
      (settle (Then (length (requests w0)) (archiveContent_fulfilled data)
                 (archiveContent_rejected data)) o w).2
      = cleared item "archiveContent" w2
      ∧ search w2 = search w ∧ current_desk w2 = current_desk w
      ∧ requests w2 = requests w
      ∧ field w2 item "actioning" = field w item "actioning"
      ∧ (∀ l k, ¬ (item = l ∧ (k = "task_id" ∨ k = "created" ∨ k = "error")) →
                slot w2 l k = slot w l k)
      ∨ (settle (Then (length (requests w0)) (archiveContent_fulfilled data)
                 (archiveContent_rejected data)) o w).2 = w).
    { destruct o as [v|response]; simpl.
      - destruct (nullish v) eqn:Hv.
        + exists w. right. by rewrite archiveContent_fulfilled_nullish.
        + eexists. left.
          rewrite (archiveContent_fulfilled_eval data item); [| done..].
          split; [reflexivity |]. do 3 (split; [done |]).
          split; [by rewrite !field_write_key |].
          intros l k Hne. rewrite !slot_write, !decide_False; [done | |];
            intros [-> <-]; apply Hne; auto.
      - eexists. left. rewrite (archiveContent_rejected_eval data item); [| done].
        split; [reflexivity |]. do 3 (split; [done |]).
        split; [by rewrite field_write_key |].
        intros l k Hne. rewrite slot_write, decide_False; [done |].
        intros [-> <-]; apply Hne; auto. }
    destruct Hsettled as (w2 & [(-> & Hs & Hc & Hr & Ha & Hslot) | ->]); [| done].
    destruct (rest_cleared item "archiveContent" w2) as (-> & -> & ->).
    do 3 (split; [done |]).
    intros l k Hne1 Hne2. rewrite slot_cleared, decide_False.
    + apply Hslot. intros [-> Hk]. apply Hne1. by split.
    + intros [Hl ->]. apply Hne2. exists item. rewrite <- Ha. by repeat split.
  - destruct o as [v|response]; simpl.
    + destruct (archiveContent_callbacks_stray data v VUndefined w Hobj) as [-> _].
      by repeat split.
    + destruct (archiveContent_callbacks_stray data VUndefined response w Hobj)
        as [_ ->].
      by repeat split.
Qed.

End Edges.

Lemma archiveContent_effects_confined_witness :
  archiveContent 3 fetching
  = (Normal (Then 0 (archiveContent_fulfilled 3) (archiveContent_rejected 3)),
     sent fetching (ReqCreate "archiveIngest"
                      (<["guid" := VStr "g1"]> {[ "desk" := VStr "desk1" ]})))
  ∧ heap (sent fetching (ReqCreate "archiveIngest"
                           (<["guid" := VStr "g1"]> {[ "desk" := VStr "desk1" ]})))
    = heap fetching
  ∧ search (sent fetching (ReqCreate "archiveIngest"
                             (<["guid" := VStr "g1"]> {[ "desk" := VStr "desk1" ]})))
    = search fetching
  ∧ current_desk (sent fetching (ReqCreate "archiveIngest"
                                   (<["guid" := VStr "g1"]> {[ "desk" := VStr "desk1" ]})))
    = current_desk fetching
  ∧ search (settle (Then 0 (archiveContent_fulfilled 3) (archiveContent_rejected 3))
              (Fulfilled (VRef 4)) fetching).2 = search fetching
  ∧ current_desk (settle (Then 0 (archiveContent_fulfilled 3) (archiveContent_rejected 3))
                    (Fulfilled (VRef 4)) fetching).2 = current_desk fetching
  ∧ requests (settle (Then 0 (archiveContent_fulfilled 3) (archiveContent_rejected 3))
                (Fulfilled (VRef 4)) fetching).2 = requests fetching
  ∧ ∀ l k,
      ¬ (field fetching 3 "item" = VRef l
         ∧ (k = "task_id" ∨ k = "created" ∨ k = "error")) →
      ¬ (∃ item, field fetching 3 "item" = VRef item
                 ∧ field fetching item "actioning" = VRef l ∧ k = "archiveContent") →
      slot (settle (Then 0 (archiveContent_fulfilled 3) (archiveContent_rejected 3))
              (Fulfilled (VRef 4)) fetching).2 l k = slot fetching l k.
Proof.
  split; [reflexivity |].
  eapply (archiveContent_effects_confined 3 fetching). reflexivity.
Defined.

(** ** Repeated and overlapping settlements *)

Section Composition.

#[local] Set Warnings "-clear-no-such-hyp".

Implicit Types (w : world) (item i j a l : loc) (k name : string) (s : obj)
  (v response x y : value) (o : outcome).

Lemma own_prop_delete s k : own_prop (delete k s) k = VUndefined.
Proof. unfold own_prop. by rewrite lookup_delete_eq. Qed.

Lemma desel_idemp s x : desel (desel s x) x = desel s x.
Proof.
  unfold desel, strict_eq.
  destruct (bool_decide (own_prop s "_id" = x)) eqn:Hx; [| by rewrite Hx].
  rewrite own_prop_delete.
  destruct (bool_decide (VUndefined = x)); by rewrite ?delete_delete_eq.
Qed.

Lemma desel_comm s x y : desel (desel s x) y = desel (desel s y) x.
Proof.
  unfold desel, strict_eq.
  destruct (bool_decide (own_prop s "_id" = x)) eqn:Hx,
           (bool_decide (own_prop s "_id" = y)) eqn:Hy;
    rewrite ?own_prop_delete, ?Hx, ?Hy;
    destruct (bool_decide (VUndefined = x)), (bool_decide (VUndefined = y));
    by rewrite ?delete_delete_eq.
Qed.

Lemma search_deselect w item :
  search (deselect w item) = desel (search w) (field w item "_id").
Proof. unfold deselect, desel. by destruct (strict_eq _ _). Qed.

Lemma search_cleared item name w : search (cleared item name w) = search w.
Proof. by destruct (rest_cleared item name w) as (-> & _). Qed.

Lemma desk_cleared item name w : current_desk (cleared item name w) = current_desk w.
Proof. by destruct (rest_cleared item name w) as (_ & -> & _). Qed.

Lemma requests_cleared item name w : requests (cleared item name w) = requests w.
Proof. by destruct (rest_cleared item name w) as (_ & _ & ->). Qed.

Lemma desk_deselect w item : current_desk (deselect w item) = current_desk w.
Proof. by destruct (rest_deselect w item) as (-> & _). Qed.

Lemma requests_deselect w item : requests (deselect w item) = requests w.
Proof. by destruct (rest_deselect w item) as (_ & ->). Qed.

Lemma search_write l k x w : search (write l k x w) = search w.
Proof. reflexivity. Qed.

Lemma desk_write l k x w : current_desk (write l k x w) = current_desk w.
Proof. reflexivity. Qed.

Lemma requests_write l k x w : requests (write l k x w) = requests w.
Proof. reflexivity. Qed.

Ltac norm_world :=
  repeat first
    [ rewrite slot_cleared | rewrite slot_write | rewrite slot_deselect
    | rewrite field_deselect
    | rewrite field_cleared by done
    | rewrite field_write_key by done
    | rewrite clears_deselect
    | rewrite clears_cleared by done
    | rewrite clears_write by done
    | rewrite search_cleared | rewrite search_write | rewrite search_deselect
    | rewrite desk_cleared | rewrite desk_write | rewrite desk_deselect
    | rewrite requests_cleared | rewrite requests_write | rewrite requests_deselect ].

Lemma service_call m item w0 :
  ∃ r w1,
    service m item w0 = (Normal r, w1)
    ∧ ∀ o w,
        settle r o w =
        match m, o with
        | Spike, Fulfilled _ =>
            (finish (clears w item), cleared item "spike" (deselect w item))
        | Spike, Rejected response =>
            (finish (clears w item),
             cleared item "spike" (write item "error" response w))
        | Unspike, Fulfilled _ =>
            (finish (clears w item), cleared item "unspike" w)
        | Unspike, Rejected response =>
            (finish (clears w item),
             cleared item "unspike" (write item "error" response w))
        end.
Proof.
  destruct m; do 2 eexists; (split; [reflexivity |]); intros [v|response] w; simpl.
  - apply spike_fulfilled_eval.
  - apply spike_rejected_eval.
  - apply unspike_fulfilled_eval.
  - apply unspike_rejected_eval.
Qed.

(** X7. Settling a request of [spike] or [unspike] a second time with the
    same outcome completes as the first time did and leaves the world
    that the first settlement left. *)
Theorem settling_again_changes_nothing
    (m : method) (item : loc) (w0 w : world) (o : outcome) :
  ∃ r w1,
    service m item w0 = (Normal r, w1)
    ∧ (settle r o (settle r o w).2).1 = (settle r o w).1
    ∧ same_world (settle r o (settle r o w).2).2 (settle r o w).2.
Proof.
  destruct (service_call m item w0) as (r & w1 & Hcall & Hsettle).
  exists r, w1. split; [done |]. rewrite !Hsettle.
  destruct m, o as [v|response]; simpl; norm_world;
    (split; [done |]); unfold same_world; norm_world;
    (split; [| by rewrite ?desel_idemp]);
    intros l k; norm_world; repeat case_decide; naive_solver.
Qed.

(** X8. Two pending requests of the service, on different items or on the
    same one, may be settled in either order: each callback completes the
    same way and the worlds reached cannot be told apart. The one
    exception is two rejections on the same item, where the payload of the
    later one is what [item.error] keeps; it is excluded unless the two
    payloads are equal. *)
Theorem settlements_commute
    (m1 m2 : method) (i j : loc) (w0 w0' w : world) (o1 o2 : outcome) :
  i ≠ j ∨ (∀ x y, o1 = Rejected x → o2 = Rejected y → x = y) →
  ∃ r1 w1 r2 w2,
    service m1 i w0 = (Normal r1, w1)
    ∧ service m2 j w0' = (Normal r2, w2)
    ∧ (settle r1 o1 (settle r2 o2 w).2).1 = (settle r1 o1 w).1
    ∧ (settle r2 o2 (settle r1 o1 w).2).1 = (settle r2 o2 w).1
    ∧ same_world (settle r2 o2 (settle r1 o1 w).2).2
                 (settle r1 o1 (settle r2 o2 w).2).2.
Proof.
  intros Hfree.
  destruct (service_call m1 i w0) as (r1 & w1 & Hcall1 & Hsettle1).
  destruct (service_call m2 j w0') as (r2 & w2 & Hcall2 & Hsettle2).
  exists r1, w1, r2, w2. do 2 (split; [done |]). rewrite !Hsettle1, !Hsettle2.
  assert (Hpay : ∀ x y, o1 = Rejected x → o2 = Rejected y → i = j → x = y)
    by (intros x y H1 H2 Hij; destruct Hfree as [?|Hfree]; [done | by apply Hfree]).
  clear Hfree Hcall1 Hcall2 Hsettle1 Hsettle2.
  destruct m1, m2, o1 as [v1|x], o2 as [v2|y]; simpl; norm_world;
    do 2 (split; [done |]); unfold same_world; norm_world;
    (split; [| by rewrite 1?(desel_comm _ (field w i "_id"))]);
    try specialize (Hpay x y eq_refl eq_refl);
    intros l k; norm_world; repeat case_decide; naive_solver.
Qed.

Lemma settlements_commute_witness :
  (1%positive ≠ 1%positive
   ∨ ∀ x y, Fulfilled VUndefined = Rejected x → Rejected (VStr "gone") = Rejected y →
            x = y)
  ∧ ∃ r1 w1 r2 w2,
    service Spike 1 (sample ∅) = (Normal r1, w1)
    ∧ service Unspike 1 (sample ∅) = (Normal r2, w2)
    ∧ (settle r1 (Fulfilled VUndefined)
         (settle r2 (Rejected (VStr "gone")) (sample ∅)).2).1
      = (settle r1 (Fulfilled VUndefined) (sample ∅)).1
    ∧ (settle r2 (Rejected (VStr "gone"))
         (settle r1 (Fulfilled VUndefined) (sample ∅)).2).1
      = (settle r2 (Rejected (VStr "gone")) (sample ∅)).1
    ∧ same_world
        (settle r2 (Rejected (VStr "gone"))
           (settle r1 (Fulfilled VUndefined) (sample ∅)).2).2
        (settle r1 (Fulfilled VUndefined)
           (settle r2 (Rejected (VStr "gone")) (sample ∅)).2).2.
Proof.
  split; [right; intros x y H; discriminate H |].
  apply (settlements_commute Spike Unspike 1 1).
  right. intros x y H. discriminate H.
Defined.

(** X9. A [spike] settled with success and then an [unspike] settled with
    success, on an item with an [actioning] object: both callbacks return
    normally, the two updates are the only requests sent, both flags end
    false, and nothing else in the store has changed. The selection that
    [spike] removed is not restored by [unspike]. *)
Theorem spike_then_unspike
    (item a : loc) (w : world) (v v' : value) :
  field w item "actioning" = VRef a →
  ∃ w1 w2,
    settled_at_once (spike item) (Fulfilled v) w = (Normal VUndefined, w1)
    ∧ settled_at_once (unspike item) (Fulfilled v') w1 = (Normal VUndefined, w2)
    ∧ requests w2 =
      requests w ++ [ReqUpdate "archive_spike" item {[ "state" := VStr "spiked" ]};
                     ReqUpdate "archive_unspike" item ∅]
    ∧ flag w2 item "spike" = Some (VBool false)
    ∧ flag w2 item "unspike" = Some (VBool false)
    ∧ search w2 = desel (search w) (field w item "_id")
    ∧ current_desk w2 = current_desk w
    ∧ ∀ l k, ¬ (l = a ∧ (k = "spike" ∨ k = "unspike")) → slot w2 l k = slot w l k.
Proof.
  intros Ha.
  set (w' := sent w (ReqUpdate "archive_spike" item {[ "state" := VStr "spiked" ]})).
  assert (Ha' : field w' item "actioning" = VRef a) by done.
  set (w1 := write a "spike" (VBool false) (deselect w' item)).
  assert (Ha1 : field w1 item "actioning" = VRef a).
  { unfold w1. by rewrite field_write_key, field_deselect. }
  set (w1' := sent w1 (ReqUpdate "archive_unspike" item ∅)).
  assert (Ha1' : field w1' item "actioning" = VRef a) by done.
  exists w1, (write a "unspike" (VBool false) w1').
  split; [| split].
  - unfold settled_at_once, bind. rewrite spike_call. simpl.
    by apply spike_fulfilled_run.
  - unfold settled_at_once, bind. rewrite unspike_call. simpl.
    by apply unspike_fulfilled_run.
  - split.
    { simpl. unfold deselect. destruct (strict_eq _ _); simpl; by rewrite <- app_assoc. }
    split.
    { unfold flag. rewrite field_write_key, Ha1'; [| done].
      rewrite field_write_key; [| done]. f_equal.
      apply (field_write_eq (deselect w' item)). }
    split; [by apply flag_cleared |].
    split; [simpl; apply (search_deselect w' item) |].
    split; [simpl; apply (desk_deselect w' item) |].
    intros l k Hne. rewrite slot_write, decide_False.
    + change (slot w1' l k) with (slot w1 l k). unfold w1.
      rewrite slot_write, decide_False; [apply (slot_deselect w' item) |].
      intros [-> <-]. apply Hne. auto.
    + intros [-> <-]. apply Hne. auto.
Qed.

Lemma spike_then_unspike_witness :
  field (sample {[ "spike" := VBool true ]}) 1 "actioning" = VRef 2 ∧
  ∃ w1 w2,
    settled_at_once (spike 1) (Fulfilled VUndefined) (sample {[ "spike" := VBool true ]})
    = (Normal VUndefined, w1)
    ∧ settled_at_once (unspike 1) (Fulfilled VUndefined) w1 = (Normal VUndefined, w2)
    ∧ requests w2 =
      requests (sample {[ "spike" := VBool true ]})
      ++ [ReqUpdate "archive_spike" 1 {[ "state" := VStr "spiked" ]};
          ReqUpdate "archive_unspike" 1 ∅]
    ∧ flag w2 1 "spike" = Some (VBool false)
    ∧ flag w2 1 "unspike" = Some (VBool false)
    ∧ search w2 = desel (search (sample {[ "spike" := VBool true ]}))
                        (field (sample {[ "spike" := VBool true ]}) 1 "_id")
    ∧ current_desk w2 = current_desk (sample {[ "spike" := VBool true ]})
    ∧ ∀ l k, ¬ (l = 2%positive ∧ (k = "spike" ∨ k = "unspike")) →
             slot w2 l k = slot (sample {[ "spike" := VBool true ]}) l k.
Proof.
  split; [reflexivity |].
  apply (spike_then_unspike 1 2). reflexivity.
Defined.

(** X10. With no [_id] among the query parameters, a successful [spike]
    leaves the query parameters as they are, whatever the item: also for
    an item without [_id], where the comparison of [undefined] with
    [undefined] succeeds and the parameter is removed once more. *)
Theorem spike_success_without_selection
    (item : loc) (w0 w : world) (v : value) :
  search w !! "_id" = None →
  ∃ r w1,
    spike item w0 = (Normal r, w1)
    ∧ search (settle r (Fulfilled v) w).2 = search w.
Proof.
  intros Hnone. do 2 eexists. split; [apply spike_call |]. simpl.
  rewrite spike_fulfilled_eval. simpl. rewrite search_cleared, search_deselect.
  unfold desel. destruct (strict_eq _ _); [by apply delete_id | done].
Qed.

Lemma spike_success_without_selection_witness :
  search (World (heap bare) ∅ VNull []) !! "_id" = None ∧
  ∃ r w1,
    spike 2 bare = (Normal r, w1)
    ∧ search (settle r (Fulfilled VUndefined) (World (heap bare) ∅ VNull [])).2
      = search (World (heap bare) ∅ VNull []).
Proof.
  split; [reflexivity |].
  apply (spike_success_without_selection 2 bare). reflexivity.
Defined.

(** X11. The success callback of [archiveContent] leaves the [error]
    property of every object as it was, so that the payload of an earlier
    failure stays on the item after a successful fetch; the rejection
    callback stores its payload in [error] of [data.item]. *)
Theorem archiveContent_error_written_only_by_failure
    (data item : loc) (w0 w1 w : world) (r : reaction) (v response : value) :
  archiveContent data w0 = (Normal r, w1) →
  field w data "item" = VRef item →
  (∀ l, slot (settle r (Fulfilled v) w).2 l "error" = slot w l "error")
  ∧ slot (settle r (Rejected response) w).2 item "error" = Some response.
Proof.
  intros [-> _]%archiveContent_reaction Hd. simpl. split.
  - intros l. destruct (nullish v) eqn:Hv.
    + by rewrite archiveContent_fulfilled_nullish.
    + rewrite (archiveContent_fulfilled_eval data item); [| done..]. simpl.
      rewrite slot_cleared, decide_False; [| by intros [??]].
      rewrite !slot_write, !decide_False; [done | by intros [??]..].
  - rewrite (archiveContent_rejected_eval data item); [| done]. simpl.
    rewrite slot_cleared, decide_False; [| by intros [??]].
    by rewrite slot_write, decide_True.
Qed.

Lemma archiveContent_error_written_only_by_failure_witness :
  archiveContent 3 fetching
  = (Normal (Then 0 (archiveContent_fulfilled 3) (archiveContent_rejected 3)),
     sent fetching (ReqCreate "archiveIngest"
                      (<["guid" := VStr "g1"]> {[ "desk" := VStr "desk1" ]})))
  ∧ field fetching 3 "item" = VRef 1
  ∧ (∀ l, slot (settle (Then 0 (archiveContent_fulfilled 3) (archiveContent_rejected 3))
                  (Fulfilled (VRef 4)) fetching).2 l "error"
          = slot fetching l "error")
  ∧ slot (settle (Then 0 (archiveContent_fulfilled 3) (archiveContent_rejected 3))
            (Rejected (VStr "gone")) fetching).2 1 "error"
    = Some (VStr "gone").
Proof.
  split; [reflexivity |]. split; [reflexivity |].
  eapply (archiveContent_error_written_only_by_failure 3 1 fetching); reflexivity.
Defined.

End Composition.
